(** * openpi_client.websocket_client_policy: WebsocketClientPolicy

    A shallow embedding of [WebsocketClientPolicy] as interaction trees.
    The client talks to collaborators that live outside the class: the
    websocket transport ([websockets.sync.client]), the clock and the logger
    ([time.sleep], [logging.info]) and the codec ([msgpack_numpy]).  Calls to
    the transport, the clock and the logger are events of the tree; the codec
    is an interface the development is parametrised by.  The retry loop of
    [_wait_for_server] is [ITree.iter], so it is as unbounded here as the
    [while True] of the source. *)

From Stdlib Require Import String Ascii List ZArith Lia Bool DecimalString.
From ITree Require Import ITree ITreeFacts Events.State Events.StateFacts Props.Leaf.
From Paco Require Import paco.
Import ListNotations.
Import ITreeNotations.
Local Open Scope list_scope.
Local Open Scope string_scope.
Local Open Scope itree_scope.

(** ** Data *)

(** Python [bytes]. *)
Definition bytes := list Byte.byte.

(** A websocket message as [recv] hands it over: a text frame is a [str],
    a binary frame is [bytes]. *)
Inductive Data : Type :=
| Text (s : string)
| Binary (b : bytes).

(** The exceptions the class tells apart, and a catch-all for every other
    class ([ConnectionClosed], [InvalidURI], [TypeError], codec errors, ...). *)
Inductive exn : Type :=
| ConnectionRefusedError
| TimeoutError
| RuntimeError (msg : string)
| OtherError (cls : string).

(** A call either returns or raises. *)
Abbreviation result A := (sum exn A) (only parsing).
Abbreviation Ok := (@inr exn _) (only parsing).
Abbreviation Raise := (@inl exn _) (only parsing).

(** A connection handle ([websockets.sync.client.ClientConnection]). *)
Definition Conn := nat.

Definition Headers := list (string * string).

(** The line feed of ["\n"]. *)
Definition nl : string := String (ascii_of_nat 10) EmptyString.

(** [str(n)] for a Python [int]. *)
Definition int_str (n : Z) : string := NilZero.string_of_int (Z.to_int n).

(** Truthiness of an [Optional[str]]: [None] and the empty string are falsy. *)
Definition truthy (s : option string) : bool :=
  match s with
  | None => false
  | Some EmptyString => false
  | Some (String _ _) => true
  end.

(** [f"{x}"] for an [Optional[str]]. *)
Definition opt_str (s : option string) : string :=
  match s with
  | None => "None"
  | Some k => k
  end.

(** The codec [msgpack_numpy] over the payload mappings [Dict]:
    [Packer().pack] and [unpackb].  [unpackb] may raise on what it is given. *)
Class Codec (Dict : Type) : Type := {
  pack : Dict -> bytes;
  unpackb : Data -> result Dict
}.

(** Python [float] enters only as the [timeout] argument, which is handed to
    [recv] and formatted into a message: [float_str t] is [f"{t}"]. *)
Class FloatRepr (Float : Type) : Type := {
  float_str : Float -> string
}.

Section Model.

Context {Dict : Type} {codec : Codec Dict}.
Context {Float : Type} {float_repr : FloatRepr Float}.

(** [f"{timeout}"] for an [Optional[float]]. *)
Definition timeout_str (timeout : option Float) : string :=
  match timeout with
  | None => "None"
  | Some t => float_str t
  end.

(** ** The collaborators as events *)

Variant netE : Type -> Type :=
| Connect (uri : string) (compression : option string) (max_size : option nat)
          (additional_headers : option Headers) : netE (result Conn)
| Recv (conn : Conn) (timeout : option Float) : netE (result Data)
| Send (conn : Conn) (data : bytes) : netE (result unit)
| Close (conn : Conn) : netE unit
| Sleep (secs : Z) : netE unit
| LogInfo (msg : string) : netE unit.

(** Sequencing of calls that may raise: the first exception ends the block. *)
Definition and_then {E A B} (t : itree E (result A)) (k : A -> itree E (result B))
  : itree E (result B) :=
  r <- t ;;
  match r with
  | inl e => Ret (Raise e)
  | inr a => k a
  end.

Notation "x <-! t ;;; k" := (and_then t (fun x => k))
  (at level 62, t at next level, right associativity).

(** ** The client object *)

(** [self] once [__init__] has returned. *)
Record Client : Type := mkClient {
  _uri : string;
  _packer : Dict -> bytes;
  _api_key : option string;
  _ws : Conn;
  _server_metadata : Dict
}.

(** [self] as [_wait_for_server] sees it: lines 19-23 have run, [_ws] and
    [_server_metadata] are not assigned yet. *)
Record Connecting : Type := mkConnecting {
  c_uri : string;
  c_packer : Dict -> bytes;
  c_api_key : option string
}.

(** Line 33. *)
Definition headers (api_key : option string) : option Headers :=
  if truthy api_key
  then Some [("Authorization", "Api-Key " ++ opt_str api_key)]
  else None.

(** Lines 33-38, the body of the [try]. *)
Definition handshake (self : Connecting) : itree netE (result (Conn * Dict)) :=
  let headers := headers (c_api_key self) in
  conn <-! ITree.trigger (Connect (c_uri self) None None headers) ;;;
  msg <-! ITree.trigger (Recv conn None) ;;;
  metadata <-! Ret (unpackb msg) ;;;
  Ret (Ok (conn, metadata)).

(** One turn of [while True]: [inl tt] goes round again, [inr r] leaves the
    loop with [r]. *)
Definition attempt (self : Connecting) (_ : unit)
  : itree netE (unit + result (Conn * Dict)) :=
  r <- handshake self ;;
  match r with
  | inr cm => Ret (inr (Ok cm))
  | inl ConnectionRefusedError =>
      ITree.trigger (LogInfo "Still waiting for server...") ;;
      ITree.trigger (Sleep 5) ;;
      Ret (inl tt)
  | inl e => Ret (inr (Raise e))
  end.

Definition _wait_for_server (self : Connecting) : itree netE (result (Conn * Dict)) :=
  ITree.trigger (LogInfo ("Waiting for server at " ++ c_uri self ++ "...")) ;;
  ITree.iter (attempt self) tt.

Definition __init__ (host : string) (port : option Z) (api_key : option string)
  : itree netE (result Client) :=
  let uri := "ws://" ++ host in
  let uri := match port with
             | Some p => uri ++ ":" ++ int_str p
             | None => uri
             end in
  let self := mkConnecting uri pack api_key in
  r <-! _wait_for_server self ;;;
  Ret (Ok (mkClient (c_uri self) (c_packer self) (c_api_key self) (fst r) (snd r))).

(** Methods of a constructed client return the object they leave behind next
    to their outcome. *)
Definition get_server_metadata (self : Client) : itree netE (Client * result Dict) :=
  Ret (self, Ok (_server_metadata self)).

Definition infer (self : Client) (obs : Dict) (timeout : option Float)
  : itree netE (Client * result Dict) :=
  let data := _packer self obs in
  sent <- ITree.trigger (Send (_ws self) data) ;;
  match sent with
  | inl e => Ret (self, Raise e)
  | inr _ =>
      received <- match timeout with
                  | Some t => ITree.trigger (Recv (_ws self) (Some t))
                  | None => ITree.trigger (Recv (_ws self) None)
                  end ;;
      match received with
      | inl TimeoutError =>
          Ret (self, Raise (RuntimeError
            ("Timeout waiting for inference response (timeout="
               ++ timeout_str timeout ++ "s)")))
      | inl e => Ret (self, Raise e)
      | inr (Text response) =>
          Ret (self, Raise (RuntimeError ("Error in inference server:" ++ nl ++ response)))
      | inr response => Ret (self, unpackb response)
      end
  end.

Definition reset (self : Client) : itree netE (Client * result unit) :=
  Ret (self, Ok tt).

(** ** A caller *)

(** The public methods, as a caller invokes them one after another on the
    object the previous call left behind. *)
Inductive method : Type :=
| CallInfer (obs : Dict) (timeout : option Float)
| CallReset
| CallGetServerMetadata.

Definition invoke (self : Client) (m : method) : itree netE Client :=
  match m with
  | CallInfer obs timeout => ITree.map fst (infer self obs timeout)
  | CallReset => ITree.map fst (reset self)
  | CallGetServerMetadata => ITree.map fst (get_server_metadata self)
  end.

Fixpoint session (self : Client) (ms : list method) : itree netE Client :=
  match ms with
  | [] => Ret self
  | m :: rest => self' <- invoke self m ;; session self' rest
  end.

(** ** Running a client against a connector *)

(** What a collaborator was asked, as it is kept in the history. *)
Inductive call : Type :=
| CConnect (uri : string) (compression : option string) (max_size : option nat)
           (additional_headers : option Headers)
| CRecv (conn : Conn) (timeout : option Float)
| CSend (conn : Conn) (data : bytes)
| CClose (conn : Conn)
| CSleep (secs : Z)
| CLogInfo (msg : string).

Definition call_of {T} (e : netE T) : call :=
  match e with
  | Connect u c m h => CConnect u c m h
  | Recv c t => CRecv c t
  | Send c d => CSend c d
  | Close c => CClose c
  | Sleep n => CSleep n
  | LogInfo m => CLogInfo m
  end.

(** A connector answers a call from the calls made so far: any deterministic
    server, network, clock and logger is one. *)
Definition Connector : Type := list call -> forall T, netE T -> T.

Definition handle (env : Connector) : netE ~> Monads.stateT (list call) (itree void1) :=
  fun T e tr => Ret ((tr ++ [call_of e])%list, env tr T e).

(** [returns env t tr tr' r]: started after the calls [tr], [t] comes back
    with [r], the calls then being [tr']. *)
Definition returns {R} (env : Connector) (t : itree netE R)
           (tr tr' : list call) (r : R) : Prop :=
  interp_state (handle env) t tr ≈ Ret (tr', r).

(** Observations on a history. *)
Definition is_connect (c : call) : bool :=
  match c with
  | CConnect _ _ _ _ => true
  | _ => false
  end.

(** The number of connect attempts. *)
Definition connects (tr : list call) : nat := length (filter is_connect tr).

(** The delays slept, in order. *)
Definition sleeps (tr : list call) : list Z :=
  flat_map (fun c => match c with CSleep n => [n] | _ => [] end) tr.

(** The messages sent, in order, each with the connection it went out on. *)
Definition sent (tr : list call) : list (Conn * bytes) :=
  flat_map (fun c => match c with CSend w d => [(w, d)] | _ => [] end) tr.

(** The connections closed. *)
Definition closed (tr : list call) : list Conn :=
  flat_map (fun c => match c with CClose w => [w] | _ => [] end) tr.

(** The [connect] call of a handshake, and its answer after [tr]. *)
Definition connect_call (self : Connecting) : call :=
  CConnect (c_uri self) None None (headers (c_api_key self)).

Definition connect_answer (env : Connector) (self : Connecting) (tr : list call)
  : result Conn :=
  env tr _ (Connect (c_uri self) None None (headers (c_api_key self))).

(** What a refused attempt leaves in the history. *)
Definition refused_round (self : Connecting) : list call :=
  [connect_call self; CLogInfo "Still waiting for server..."; CSleep 5].

Fixpoint refused_rounds (self : Connecting) (n : nat) : list call :=
  match n with
  | O => []
  | S k => (refused_round self ++ refused_rounds self k)%list
  end.

(** The history of [_wait_for_server] when, refused [n] times, it starts on
    attempt [n + 1]. *)
Definition refused_calls (self : Connecting) (n : nat) : list call :=
  ([CLogInfo ("Waiting for server at " ++ c_uri self ++ "...")]
     ++ refused_rounds self n)%list.

(** The history of a construction that is refused [n] times and then
    shakes hands on [conn]. *)
Definition construction_calls (self : Connecting) (n : nat) (conn : Conn) : list call :=
  (refused_calls self n ++ [connect_call self; CRecv conn None])%list.

(** The three ways a handshake ends. *)
Variant handshake_outcome (env : Connector) (self : Connecting) (tr : list call)
  : list call -> result (Conn * Dict) -> Prop :=
| connect_raised e :
    connect_answer env self tr = Raise e ->
    handshake_outcome env self tr (tr ++ [connect_call self])%list (Raise e)
| recv_raised conn e :
    connect_answer env self tr = Ok conn ->
    env (tr ++ [connect_call self])%list _ (Recv conn None) = Raise e ->
    handshake_outcome env self tr
      (tr ++ [connect_call self; CRecv conn None])%list (Raise e)
| received conn msg :
    connect_answer env self tr = Ok conn ->
    env (tr ++ [connect_call self])%list _ (Recv conn None) = Ok msg ->
    handshake_outcome env self tr
      (tr ++ [connect_call self; CRecv conn None])%list
      (match unpackb msg with
       | inl e => Raise e
       | inr metadata => Ok (conn, metadata)
       end).

(** ** What a tree may ever ask *)

(** [always P t]: every call [t] can make, on any run and however long it
    runs, satisfies [P]. *)
Variant alwaysF {R} (P : call -> Prop) (rec : itree netE R -> Prop)
  : itree' netE R -> Prop :=
| alwaysF_ret r : alwaysF P rec (RetF r)
| alwaysF_tau t : rec t -> alwaysF P rec (TauF t)
| alwaysF_vis T (e : netE T) k :
    P (call_of e) -> (forall a, rec (k a)) -> alwaysF P rec (VisF e k).

Definition always_ {R} (P : call -> Prop) (rec : itree netE R -> Prop)
           (t : itree netE R) : Prop :=
  alwaysF P rec (observe t).

Definition always {R} (P : call -> Prop) (t : itree netE R) : Prop :=
  paco1 (always_ P) bot1 t.

(** The calls a construction makes: the connect of [connect_call], receives
    without a timeout, delays of 5, and log lines. *)
Definition construction_call (self : Connecting) (c : call) : Prop :=
  match c with
  | CConnect _ _ _ _ => c = connect_call self
  | CRecv _ timeout => timeout = None
  | CSleep secs => secs = 5%Z
  | CLogInfo _ => True
  | CSend _ _ => False
  | CClose _ => False
  end.

(** The same client, holding another API key. *)
Definition with_api_key (api_key : option string) (self : Client) : Client :=
  mkClient (_uri self) (_packer self) api_key (_ws self) (_server_metadata self).

(** The number of receives. *)
Definition recvs (tr : list call) : nat :=
  length (filter (fun c => match c with CRecv _ _ => true | _ => false end) tr).



End Model.

Arguments netE : clear implicits.
Arguments call : clear implicits.
Arguments Connector : clear implicits.
Arguments Client : clear implicits.
Arguments Connecting : clear implicits.
Arguments method : clear implicits.

(** ** A codec and connectors to run the client against *)

(** A small codec: a mapping is kept as its text, a binary frame carries the
    bytes of that text, and a text frame is not something to unpack. *)
#[local] Instance text_codec : Codec string := {
  pack := list_byte_of_string;
  unpackb := fun d =>
    match d with
    | Binary b => Ok (string_of_list_byte b)
    | Text _ => Raise (OtherError "TypeError")
    end
}.

(** A float is given by the digits Python prints for it. *)
#[local] Instance digits_repr : FloatRepr string := {
  float_str := fun t => t
}.

(** Whether a request has gone out already. *)
Definition has_sent {Float} (tr : list (call Float)) : bool :=
  match sent tr with
  | [] => false
  | _ :: _ => true
  end.

(** A server that is not up for the first [n] connect attempts; from then on
    a connect attempt gives [accept]; the first message on the connection is
    [greeting], and once a request has been sent a receive gives [reply]. *)
Definition server_after (n : nat) (accept : result Conn) (greeting : Data)
           (reply : result Data) : Connector string :=
  fun tr T e =>
    match e in netE _ T return T with
    | Connect _ _ _ _ =>
        if Nat.ltb (connects tr) n then Raise ConnectionRefusedError else accept
    | Recv _ _ => if has_sent tr then reply else Ok greeting
    | Send _ _ => Ok tt
    | Close _ => tt
    | Sleep _ => tt
    | LogInfo _ => tt
    end.

(** A client as [__init__ "localhost" (Some 8000) None] leaves it after a
    handshake on connection 1 with the metadata "{action_dim: 7}". *)
Definition a_client : Client string :=
  mkClient "ws://localhost:8000" pack None 1 "{action_dim: 7}".

Definition a_connecting : Connecting string :=
  mkConnecting "ws://localhost:8000" pack None.

(** The same, configured with an API key. *)
Definition a_keyed_connecting : Connecting string :=
  mkConnecting "ws://localhost:8000" pack (Some "secret").

(** The server of the examples: up at once, it greets connection 1 with the
    metadata "{action_dim: 7}" and answers a request with [reply]. *)
Definition answering (reply : result Data) : Connector string :=
  server_after 0 (Ok 1) (Binary (pack "{action_dim: 7}")) reply.

(** The same server, up only at the third connect attempt. *)
Definition late_server : Connector string :=
  server_after 2 (Ok 1) (Binary (pack "{action_dim: 7}"))
               (Ok (Binary (pack "{action: [0.1, 0.2]}"))).

(** A server that accepts at once and greets with a text frame. *)
Definition text_greeter : Connector string :=
  server_after 0 (Ok 1) (Text "hello") (Ok (Text "hello")).

(** A connector that rejects the target outright. *)
Definition rejecting : Connector string :=
  server_after 0 (Raise (OtherError "InvalidURI")) (Text "") (Ok (Text "")).

(** A connection the server has closed: nothing goes out, nothing comes in. *)
Definition closed_connection : Connector string :=
  fun tr T e =>
    match e in netE _ T return T with
    | Connect _ _ _ _ => Ok 1
    | Recv _ _ => Raise (OtherError "ConnectionClosedError")
    | Send _ _ => Raise (OtherError "ConnectionClosedError")
    | Close _ => tt
    | Sleep _ => tt
    | LogInfo _ => tt
    end.

(** A server behind a proxy that accepts the connection and then reports
    the refusal on the first receive; the second connection is greeted. *)
Definition flaky_greeter : Connector string :=
  fun tr T e =>
    match e in netE _ T return T with
    | Connect _ _ _ _ => Ok (S (connects tr))
    | Recv _ _ =>
        if Nat.eqb (recvs tr) 0 then Raise ConnectionRefusedError
        else Ok (Binary (pack "{action_dim: 7}"))
    | Send _ _ => Ok tt
    | Close _ => tt
    | Sleep _ => tt
    | LogInfo _ => tt
    end.

(** A server that is slow on the first request: the first receive times
    out, and the answer to that first request is what arrives next. *)
Definition slow_server : Connector string :=
  fun tr T e =>
    match e in netE _ T return T with
    | Connect _ _ _ _ => Ok 1
    | Recv _ _ =>
        if Nat.eqb (recvs tr) 0 then Raise TimeoutError
        else Ok (Binary (pack "{answer to: first}"))
    | Send _ _ => Ok tt
    | Close _ => tt
    | Sleep _ => tt
    | LogInfo _ => tt
    end.


(** ** Facts *)

Section Facts.

Context {Dict : Type} {codec : Codec Dict}.
Context {Float : Type} {float_repr : FloatRepr Float}.

Implicit Types (env : Connector Float) (tr : list (call Float)).

(** *** How [returns] composes *)

Lemma returns_ret {R} env (r : R) tr : returns env (Ret r) tr tr r.
Proof. unfold returns. rewrite interp_state_ret. reflexivity. Qed.

Lemma returns_trigger {T} env (e : netE Float T) tr :
  returns env (ITree.trigger e) tr (tr ++ [call_of e])%list (env tr T e).
Proof. unfold returns. rewrite interp_state_trigger. reflexivity. Qed.

Lemma returns_bind {A B} env (t : itree (netE Float) A) (k : A -> itree (netE Float) B)
      tr tr1 tr2 a b :
  returns env t tr tr1 a ->
  returns env (k a) tr1 tr2 b ->
  returns env (ITree.bind t k) tr tr2 b.
Proof.
  unfold returns. intros Ht Hk.
  rewrite interp_state_bind, Ht, bind_ret_l. exact Hk.
Qed.

Lemma returns_iter_again {I R} env (body : I -> itree (netE Float) (I + R))
      i j tr tr1 tr2 r :
  returns env (body i) tr tr1 (inl j) ->
  returns env (ITree.iter body j) tr1 tr2 r ->
  returns env (ITree.iter body i) tr tr2 r.
Proof.
  unfold returns. intros Hb Hi.
  rewrite unfold_iter, interp_state_bind, Hb, bind_ret_l. cbn.
  rewrite interp_state_tau, tau_eutt. exact Hi.
Qed.

Lemma returns_iter_done {I R} env (body : I -> itree (netE Float) (I + R)) i tr tr1 r :
  returns env (body i) tr tr1 (inr r) ->
  returns env (ITree.iter body i) tr tr1 r.
Proof.
  unfold returns. intros Hb.
  rewrite unfold_iter, interp_state_bind, Hb, bind_ret_l. cbn.
  rewrite interp_state_ret. reflexivity.
Qed.

(** A run has one outcome. *)
Lemma returns_det {R} env (t : itree (netE Float) R) tr tr1 tr2 (r1 r2 : R) :
  returns env t tr tr1 r1 ->
  returns env t tr tr2 r2 ->
  tr1 = tr2 /\ r1 = r2.
Proof.
  unfold returns. intros H1 H2. rewrite H1 in H2.
  apply eutt_inv_Ret in H2. inversion H2. split; reflexivity.
Qed.

(** A loop that comes back went round under its invariant and left through
    an exit of its body.  The body is asked to come back whatever the
    connector answers. *)
Lemma returns_iter_inv {I R} env (body : I -> itree (netE Float) (I + R))
      (Inv : list (call Float) -> I -> Prop) (Q : list (call Float) -> R -> Prop) :
  (forall tr i, exists tr1 x, returns env (body i) tr tr1 x) ->
  (forall tr i tr1 x, Inv tr i -> returns env (body i) tr tr1 x ->
     match x with inl j => Inv tr1 j | inr r => Q tr1 r end) ->
  forall tr i tr' r,
    Inv tr i -> returns env (ITree.iter body i) tr tr' r -> Q tr' r.
Proof.
  intros Htotal Hstep tr i tr' r Hinv Hret.
  unfold returns in Hret.
  assert (Hleaf : Leaf (tr', r) (interp_state (handle env) (ITree.iter body i) tr)).
  { rewrite Hret. apply Leaf_Ret. }
  rewrite eutt_eq_interp_state_iter in Hleaf.
  unfold Basics.iter, MonadIter_stateT0, Basics.iter, MonadIter_itree in Hleaf.
  revert Hleaf.
  apply (Leaf_iter_inv _ (tr, i) (fun si => Inv (fst si) (snd si))
           (fun sr => Q (fst sr) (snd sr))); [|exact Hinv].
  intros [s j] x Hi Hx. cbn in Hi.
  destruct (Htotal s j) as (tr1 & y & Hy).
  pose proof (Hstep _ _ _ _ Hi Hy) as Hpost.
  unfold returns in Hy. cbn in Hx.
  rewrite Hy, bind_ret_l in Hx. cbn in Hx.
  destruct y as [j'|r']; apply Leaf_Ret_inv in Hx; subst x; cbn; exact Hpost.
Qed.

(** *** The handshake, case by case *)

Lemma handshake_connect_raises env (self : Connecting Dict) tr e :
  connect_answer env self tr = Raise e ->
  returns env (handshake self) tr (tr ++ [connect_call self])%list (Raise e).
Proof.
  intros Hc. unfold handshake, and_then.
  eapply returns_bind; [apply returns_trigger|].
  fold (connect_answer env self tr). rewrite Hc. apply returns_ret.
Qed.

Lemma handshake_recv_raises env (self : Connecting Dict) tr conn e :
  connect_answer env self tr = Ok conn ->
  env (tr ++ [connect_call self])%list _ (Recv conn None) = Raise e ->
  returns env (handshake self) tr
          (tr ++ [connect_call self; CRecv conn None])%list (Raise e).
Proof.
  intros Hc Hr. unfold handshake, and_then.
  eapply returns_bind; [apply returns_trigger|].
  fold (connect_answer env self tr). rewrite Hc. cbn.
  eapply returns_bind; [apply returns_trigger|].
  fold (connect_call (Float:=Float) self). rewrite Hr. cbn.
  rewrite <- app_assoc. apply returns_ret.
Qed.

Lemma handshake_received env (self : Connecting Dict) tr conn msg :
  connect_answer env self tr = Ok conn ->
  env (tr ++ [connect_call self])%list _ (Recv conn None) = Ok msg ->
  returns env (handshake self) tr
          (tr ++ [connect_call self; CRecv conn None])%list
          (match unpackb msg with
           | inl e => Raise e
           | inr metadata => Ok (conn, metadata)
           end).
Proof.
  intros Hc Hr. unfold handshake, and_then.
  eapply returns_bind; [apply returns_trigger|].
  fold (connect_answer env self tr). rewrite Hc. cbn.
  eapply returns_bind; [apply returns_trigger|].
  fold (connect_call (Float:=Float) self). rewrite Hr. cbn.
  rewrite <- app_assoc. cbn.
  eapply returns_bind; [apply returns_ret|].
  destruct (unpackb msg); apply returns_ret.
Qed.

Lemma handshake_outcome_returns env self tr tr1 r :
  handshake_outcome env self tr tr1 r -> returns env (handshake self) tr tr1 r.
Proof.
  intros [e Hc|conn e Hc Hr|conn msg Hc Hr].
  - apply handshake_connect_raises; assumption.
  - apply handshake_recv_raises; assumption.
  - apply handshake_received; assumption.
Qed.

(** The handshake always comes back, whatever the connector answers. *)
Lemma handshake_total env self tr :
  exists tr1 r, handshake_outcome env self tr tr1 r.
Proof.
  destruct (connect_answer env self tr) as [e|conn] eqn:Hc.
  - eexists _, _. apply connect_raised. exact Hc.
  - destruct (env (tr ++ [connect_call self])%list _ (Recv conn None)) as [e|msg] eqn:Hr.
    + eexists _, _. eapply recv_raised; eassumption.
    + eexists _, _. eapply received; eassumption.
Qed.

Lemma handshake_inv env self tr tr1 r :
  returns env (handshake self) tr tr1 r -> handshake_outcome env self tr tr1 r.
Proof.
  intros Hret.
  destruct (handshake_total env self tr) as (tr2 & r2 & Hout).
  destruct (returns_det _ _ _ _ _ _ _ Hret (handshake_outcome_returns _ _ _ _ _ Hout))
    as [-> ->].
  exact Hout.
Qed.

(** A handshake that succeeds connected, received one message on the new
    connection and decoded it. *)
Lemma handshake_ok_inv env self tr tr1 conn metadata :
  returns env (handshake self) tr tr1 (Ok (conn, metadata)) ->
  exists msg,
    tr1 = (tr ++ [connect_call self; CRecv conn None])%list /\
    connect_answer env self tr = Ok conn /\
    env (tr ++ [connect_call self])%list _ (Recv conn None) = Ok msg /\
    unpackb msg = Ok metadata.
Proof.
  intros Hret. apply handshake_inv in Hret.
  remember (Ok (conn, metadata)) as r eqn:Hr0.
  destruct Hret as [e Hc|c e Hc Hr|c msg Hc Hr].
  - discriminate.
  - discriminate.
  - destruct (unpackb msg) as [e|md] eqn:Hu; [discriminate|].
    injection Hr0 as <- <-.
    exists msg. repeat split; assumption.
Qed.

(** *** One turn of the loop *)

Lemma attempt_retries env self tr tr1 :
  returns env (handshake self) tr tr1 (Raise ConnectionRefusedError) ->
  returns env (attempt self tt) tr
          (tr1 ++ [CLogInfo "Still waiting for server..."; CSleep 5])%list (inl tt).
Proof.
  intros Hh. unfold attempt.
  eapply returns_bind; [exact Hh|]. cbn.
  eapply returns_bind; [apply returns_trigger|].
  eapply returns_bind; [apply returns_trigger|]. cbn.
  rewrite <- app_assoc. apply returns_ret.
Qed.

Lemma attempt_leaves env self tr tr1 r :
  returns env (handshake self) tr tr1 r ->
  r <> Raise ConnectionRefusedError ->
  returns env (attempt self tt) tr tr1 (inr r).
Proof.
  intros Hh Hne. unfold attempt.
  eapply returns_bind; [exact Hh|].
  destruct r as [[| | |]|cm]; try apply returns_ret.
  exfalso. apply Hne. reflexivity.
Qed.

Lemma exn_refused_dec (r : result (Conn * Dict)) :
  {r = Raise ConnectionRefusedError} + {r <> Raise ConnectionRefusedError}.
Proof.
  destruct r as [[| | |]|cm]; (left; reflexivity) || (right; discriminate).
Qed.

Lemma attempt_total env self tr :
  exists tr1 x, returns env (attempt self tt) tr tr1 x.
Proof.
  destruct (handshake_total env self tr) as (tr1 & r & Hout).
  apply handshake_outcome_returns in Hout.
  destruct (exn_refused_dec r) as [->|Hne].
  - eexists _, _. apply attempt_retries. exact Hout.
  - eexists _, _. apply attempt_leaves; eassumption.
Qed.

(** A turn goes round again exactly when its handshake was refused, and
    otherwise leaves with what the handshake gave. *)
Lemma attempt_inv env self tr tr1 x :
  returns env (attempt self tt) tr tr1 x ->
  match x with
  | inl _ =>
      exists tr0,
        returns env (handshake self) tr tr0 (Raise ConnectionRefusedError) /\
        tr1 = (tr0 ++ [CLogInfo "Still waiting for server..."; CSleep 5])%list
  | inr r =>
      returns env (handshake self) tr tr1 r /\ r <> Raise ConnectionRefusedError
  end.
Proof.
  intros Hret.
  destruct (handshake_total env self tr) as (tr0 & r & Hout).
  apply handshake_outcome_returns in Hout.
  destruct (exn_refused_dec r) as [->|Hne].
  - destruct (returns_det _ _ _ _ _ _ _ Hret (attempt_retries _ _ _ _ Hout)) as [-> ->].
    exists tr0. split; [exact Hout|reflexivity].
  - destruct (returns_det _ _ _ _ _ _ _ Hret (attempt_leaves _ _ _ _ _ Hout Hne)) as [-> ->].
    split; assumption.
Qed.

(** *** Counting in histories *)

Lemma connects_app tr1 tr2 : connects (tr1 ++ tr2) = connects tr1 + connects tr2.
Proof. unfold connects. rewrite filter_app, length_app. reflexivity. Qed.

Lemma sleeps_app tr1 tr2 : sleeps (tr1 ++ tr2) = (sleeps tr1 ++ sleeps tr2)%list.
Proof. unfold sleeps. apply flat_map_app. Qed.

Lemma closed_app tr1 tr2 : closed (tr1 ++ tr2) = (closed tr1 ++ closed tr2)%list.
Proof. unfold closed. apply flat_map_app. Qed.

Lemma connects_refused_rounds (self : Connecting Dict) n :
  connects (refused_rounds (Float:=Float) self n) = n.
Proof.
  induction n as [|n IH]; [reflexivity|].
  cbn [refused_rounds]. rewrite connects_app, IH. reflexivity.
Qed.

Lemma sleeps_refused_rounds (self : Connecting Dict) n :
  sleeps (refused_rounds (Float:=Float) self n) = repeat 5%Z n.
Proof.
  induction n as [|n IH]; [reflexivity|].
  cbn [refused_rounds]. rewrite sleeps_app, IH. reflexivity.
Qed.

Lemma connects_construction_calls (self : Connecting Dict) n conn :
  connects (construction_calls (Float:=Float) self n conn) = n + 1.
Proof.
  unfold construction_calls, refused_calls.
  rewrite !connects_app, connects_refused_rounds. reflexivity.
Qed.

Lemma connects_refused_calls (self : Connecting Dict) n :
  connects (refused_calls (Float:=Float) self n) = n.
Proof.
  unfold refused_calls. rewrite connects_app, connects_refused_rounds. reflexivity.
Qed.

Lemma sleeps_construction_calls (self : Connecting Dict) n conn :
  sleeps (construction_calls (Float:=Float) self n conn) = repeat 5%Z n.
Proof.
  unfold construction_calls, refused_calls.
  rewrite !sleeps_app, sleeps_refused_rounds. cbn. apply app_nil_r.
Qed.

(** *** The loop, forwards *)

(** While the connector refuses, the loop goes round. *)
Lemma loop_after_refusals env (self : Connecting Dict) N :
  (forall tr, connects tr < N -> connect_answer env self tr = Raise ConnectionRefusedError) ->
  forall k tr tr' r,
    connects tr + k <= N ->
    returns env (ITree.iter (attempt self) tt) (tr ++ refused_rounds self k)%list tr' r ->
    returns env (ITree.iter (attempt self) tt) tr tr' r.
Proof.
  intros Hrefuse k. induction k as [|k IH]; intros tr tr' r Hle Hret.
  - cbn in Hret. rewrite app_nil_r in Hret. exact Hret.
  - eapply returns_iter_again.
    + apply attempt_retries. apply handshake_connect_raises.
      apply Hrefuse. lia.
    + apply IH.
      * rewrite !connects_app. cbn. lia.
      * cbn [refused_rounds] in Hret. unfold refused_round in Hret.
        cbn [app] in Hret. rewrite <- !app_assoc. cbn [app]. exact Hret.
Qed.

(** After [N] refusals the outcome of the next handshake, unless it is a
    refusal again, is the outcome of [_wait_for_server]. *)
Lemma wait_for_server_after_refusals env (self : Connecting Dict) N tr1 r :
  (forall tr, connects tr < N -> connect_answer env self tr = Raise ConnectionRefusedError) ->
  returns env (handshake self)
          ([CLogInfo ("Waiting for server at " ++ c_uri self ++ "...")]
             ++ refused_rounds self N)%list tr1 r ->
  r <> Raise ConnectionRefusedError ->
  returns env (_wait_for_server self) [] tr1 r.
Proof.
  intros Hrefuse Hh Hne. unfold _wait_for_server.
  eapply returns_bind; [apply returns_trigger|]. cbn [app call_of].
  apply (loop_after_refusals env self N Hrefuse N).
  - cbn. lia.
  - apply returns_iter_done. apply attempt_leaves; assumption.
Qed.

(** *** Runs, backwards *)

(** The interpreted tree makes no call of its own: what it can come back
    with, it comes back with. *)
Lemma Leaf_returns {R} env (t : itree (netE Float) R) tr tr' r :
  Leaf (tr', r) (interp_state (handle env) t tr) -> returns env t tr tr' r.
Proof.
  unfold returns. generalize (interp_state (handle env) t tr). intros u Hleaf.
  induction Hleaf as [u Hobs|u v Hobs _ IH|X e u k x Hobs _ _].
  - rewrite (itree_eta u), Hobs. reflexivity.
  - rewrite (itree_eta u), Hobs, tau_eutt. exact IH.
  - destruct e.
Qed.

Lemma returns_Leaf {R} env (t : itree (netE Float) R) tr tr' r :
  returns env t tr tr' r -> Leaf (tr', r) (interp_state (handle env) t tr).
Proof. unfold returns. intros ->. apply Leaf_Ret. Qed.

Lemma returns_bind_inv {A B} env (t : itree (netE Float) A)
      (k : A -> itree (netE Float) B) tr tr2 b :
  returns env (ITree.bind t k) tr tr2 b ->
  exists tr1 a, returns env t tr tr1 a /\ returns env (k a) tr1 tr2 b.
Proof.
  intros Hret. apply returns_Leaf in Hret.
  rewrite interp_state_bind in Hret.
  apply Leaf_bind_inv in Hret. destruct Hret as ([tr1 a] & Ht & Hk).
  exists tr1, a. split; apply Leaf_returns; assumption.
Qed.

Lemma returns_ret_inv {R} env (r r' : R) tr tr' :
  returns env (Ret r) tr tr' r' -> tr' = tr /\ r' = r.
Proof.
  intros Hret.
  destruct (returns_det _ _ _ _ _ _ _ Hret (returns_ret env r tr)) as [-> ->].
  split; reflexivity.
Qed.

(** Whenever [_wait_for_server] comes back, it comes back with the outcome
    of a handshake that was not refused. *)
Lemma wait_for_server_inv env (self : Connecting Dict) tr tr' r :
  returns env (_wait_for_server self) tr tr' r ->
  exists tr0,
    returns env (handshake self) tr0 tr' r /\ r <> Raise ConnectionRefusedError.
Proof.
  unfold _wait_for_server. intros Hret.
  apply returns_bind_inv in Hret. destruct Hret as (tr1 & [] & _ & Hloop).
  revert Hloop.
  apply (returns_iter_inv env (attempt self) (fun _ _ => True)
           (fun h r => exists tr0, returns env (handshake self) tr0 h r /\
                                   r <> Raise ConnectionRefusedError)); [| |exact I].
  - intros h []. apply attempt_total.
  - intros h [] h1 x _ Hx. apply attempt_inv in Hx.
    destruct x as [[]|r0]; [exact I|].
    exists h. exact Hx.
Qed.

(** *** [infer], case by case *)

Lemma infer_send_raises env (self : Client Dict) obs timeout tr e :
  env tr _ (Send (_ws self) (_packer self obs)) = Raise e ->
  returns env (infer self obs timeout) tr
          (tr ++ [CSend (_ws self) (_packer self obs)])%list (self, Raise e).
Proof.
  intros Hs. unfold infer. cbv zeta.
  eapply returns_bind; [apply returns_trigger|].
  rewrite Hs. apply returns_ret.
Qed.

Lemma infer_after_send env (self : Client Dict) obs timeout tr u :
  env tr _ (Send (_ws self) (_packer self obs)) = inr u ->
  returns env (infer self obs timeout) tr
    (tr ++ [CSend (_ws self) (_packer self obs); CRecv (_ws self) timeout])%list
    (match env (tr ++ [CSend (_ws self) (_packer self obs)])%list _
             (Recv (_ws self) timeout) with
     | inl TimeoutError =>
         (self, Raise (RuntimeError
            ("Timeout waiting for inference response (timeout="
               ++ timeout_str timeout ++ "s)")))
     | inl e => (self, Raise e)
     | inr (Text response) =>
         (self, Raise (RuntimeError ("Error in inference server:" ++ nl ++ response)))
     | inr response => (self, unpackb response)
     end).
Proof.
  intros Hs. unfold infer. cbv zeta.
  eapply returns_bind; [apply returns_trigger|].
  rewrite Hs. cbn [call_of].
  eapply returns_bind.
  - instantiate (2 := (tr ++ [CSend (_ws self) (_packer self obs)]
                          ++ [CRecv (_ws self) timeout])%list).
    rewrite app_assoc.
    destruct timeout; apply (returns_trigger env (Recv (_ws self) _)).
  - cbn [app].
    destruct (env (tr ++ [CSend (_ws self) (_packer self obs)])%list _
                  (Recv (_ws self) timeout)) as [[| | |]|[s|b]];
      apply returns_ret.
Qed.

(** The calls of one [infer]: a send, and a receive when the send returned. *)
Lemma infer_total env (self : Client Dict) obs timeout tr :
  exists tr1 r,
    returns env (infer self obs timeout) tr (tr ++ tr1)%list (self, r) /\
    (tr1 = [CSend (_ws self) (_packer self obs)] \/
     tr1 = [CSend (_ws self) (_packer self obs); CRecv (_ws self) timeout]).
Proof.
  destruct (env tr _ (Send (_ws self) (_packer self obs))) as [e|u] eqn:Hs.
  - eexists _, _. split; [apply infer_send_raises; exact Hs|]. left. reflexivity.
  - pose proof (infer_after_send env self obs timeout tr u Hs) as Hret.
    destruct (env (tr ++ [CSend (_ws self) (_packer self obs)])%list _
                  (Recv (_ws self) timeout)) as [[| | |]|[s|b]];
      (eexists _, _; split; [exact Hret|right; reflexivity]).
Qed.

(** *** What a tree may ever ask *)

Lemma always__mon {R} (P : call Float -> Prop) : monotone1 (@always_ Float R P).
Proof.
  intros t r r' Ht Hle. unfold always_ in *.
  destruct Ht; constructor; auto.
Qed.

#[local] Hint Resolve always__mon : paco.

Lemma always_ret {R} (P : call Float -> Prop) (r : R) : always P (Ret r).
Proof. pfold. unfold always_. cbn. constructor. Qed.

Lemma always_bind_acc {A B} (P : call Float -> Prop) rel
      (k : A -> itree (netE Float) B) :
  (forall a, paco1 (always_ P) rel (k a)) ->
  forall t, always P t -> paco1 (always_ P) rel (ITree.bind t k).
Proof.
  intros Hk. pcofix CIH. intros t Ht.
  punfold Ht. unfold always_ in Ht.
  pfold. unfold always_. rewrite observe_bind.
  destruct Ht as [a|u Hu|T e ke He Hke].
  - pose proof (Hk a) as Hka. punfold Hka. unfold always_ in Hka.
    eapply always__mon; [exact Hka|].
    intros u [Hu|Hu]; [left|right; auto].
    eapply paco1_mon; [exact Hu|auto].
  - cbn. constructor. right. apply CIH. pclearbot. exact Hu.
  - cbn. constructor; [exact He|].
    intros a. right. apply CIH. specialize (Hke a). pclearbot. exact Hke.
Qed.

Lemma always_bind {A B} (P : call Float -> Prop) (t : itree (netE Float) A)
      (k : A -> itree (netE Float) B) :
  always P t -> (forall a, always P (k a)) -> always P (ITree.bind t k).
Proof. intros Ht Hk. apply always_bind_acc; assumption. Qed.

Lemma always_trigger {T} (P : call Float -> Prop) (e : netE Float T) :
  P (call_of e) -> always P (ITree.trigger e).
Proof.
  intros He. pfold. unfold always_. cbn. constructor; [exact He|].
  intros a. left. apply always_ret.
Qed.

Lemma always_iter {I R} (P : call Float -> Prop)
      (body : I -> itree (netE Float) (I + R)) :
  (forall i, always P (body i)) -> forall i, always P (ITree.iter body i).
Proof.
  intros Hbody. pcofix CIH. intros i.
  pfold. unfold always_.
  rewrite (observing_observe (unfold_aloop_ body i)).
  assert (Hb : paco1 (always_ P) r
                 (ITree.bind (body i)
                    (fun lr => ITree.on_left lr l (Tau (ITree.iter body l))))).
  { apply always_bind_acc; [|apply Hbody].
    intros [l|x]; cbn.
    - pfold. unfold always_. cbn. constructor. right. apply CIH.
    - pfold. unfold always_. cbn. constructor. }
  punfold Hb.
Qed.

Lemma always_weaken {R} (P Q : call Float -> Prop) (t : itree (netE Float) R) :
  (forall c, P c -> Q c) -> always P t -> always Q t.
Proof.
  intros HPQ. revert t. pcofix CIH. intros t Ht.
  punfold Ht. unfold always_ in Ht.
  pfold. unfold always_.
  destruct Ht as [a|u Hu|T e ke He Hke].
  - constructor.
  - constructor. right. apply CIH. pclearbot. exact Hu.
  - constructor; [apply HPQ; exact He|].
    intros a. right. apply CIH. specialize (Hke a). pclearbot. exact Hke.
Qed.

(** What [always] promises of a tree holds of the calls of its runs. *)
Lemma always_returns {R} (P : call Float -> Prop) env (t : itree (netE Float) R)
      tr tr' r :
  always P t -> returns env t tr tr' r ->
  exists ext, tr' = (tr ++ ext)%list /\ Forall P ext.
Proof.
  intros Ht Hret. apply returns_Leaf in Hret.
  remember (interp_state (handle env) t tr) as u eqn:Hu.
  assert (Heq : u ≅ interp_state (handle env) t tr) by (subst; reflexivity).
  clear Hu. revert t tr Ht Heq.
  induction Hret as [u Hobs|u v Hobs _ IH|X e u k x Hobs _ _]; intros t tr Ht Heq.
  - rewrite unfold_interp_state in Heq.
    punfold Ht. unfold always_ in Ht.
    rewrite (itree_eta u), Hobs in Heq.
    destruct Ht as [a|w Hw|T e ke He Hke]; cbn in Heq.
    + apply eqit_inv_Ret in Heq. injection Heq as -> _.
      exists []. rewrite app_nil_r. split; [reflexivity|constructor].
    + apply eqit_inv in Heq. cbn in Heq. contradiction.
    + unfold handle in Heq. rewrite bind_ret_l in Heq.
      apply eqit_inv in Heq. cbn in Heq. contradiction.
  - rewrite unfold_interp_state in Heq.
    punfold Ht. unfold always_ in Ht.
    rewrite (itree_eta u), Hobs in Heq.
    destruct Ht as [a|w Hw|T e ke He Hke]; cbn in Heq.
    + apply eqit_inv in Heq. cbn in Heq. contradiction.
    + apply eqit_inv_Tau in Heq. pclearbot.
      apply (IH w tr Hw Heq).
    + unfold handle in Heq. rewrite bind_ret_l in Heq. cbn in Heq.
      apply eqit_inv_Tau in Heq. specialize (Hke (env tr T e)). pclearbot.
      destruct (IH _ _ Hke Heq) as (ext & -> & Hext).
      exists (call_of e :: ext). rewrite <- app_assoc. split; [reflexivity|].
      constructor; assumption.
  - destruct e.
Qed.

(** *** Construction, forwards and backwards *)

(** The target [__init__] builds. *)
Lemma init_unfold host port api_key :
  __init__ (Dict:=Dict) (Float:=Float) host port api_key =
  and_then
    (_wait_for_server
       (mkConnecting
          match port with
          | Some p => "ws://" ++ host ++ ":" ++ int_str p
          | None => "ws://" ++ host
          end pack api_key))
    (fun r =>
       Ret (Ok (mkClient
                  match port with
                  | Some p => "ws://" ++ host ++ ":" ++ int_str p
                  | None => "ws://" ++ host
                  end pack api_key (fst r) (snd r)))).
Proof. destruct port; reflexivity. Qed.

(** Refused [N] times, then a handshake that goes through. *)
Lemma wait_for_server_handshakes env (self : Connecting Dict) N conn msg metadata :
  (forall tr u c m h, connects tr < N ->
     env tr _ (Connect u c m h) = Raise ConnectionRefusedError) ->
  (forall tr u c m h, connects tr = N -> env tr _ (Connect u c m h) = Ok conn) ->
  env (refused_calls self N ++ [connect_call self])%list _ (Recv conn None) = Ok msg ->
  unpackb msg = Ok metadata ->
  returns env (_wait_for_server self) [] (construction_calls self N conn)
          (Ok (conn, metadata)).
Proof.
  intros Hrefuse Haccept Hrecv Hdec.
  apply (wait_for_server_after_refusals env self N).
  - intros tr Hlt. apply Hrefuse. exact Hlt.
  - unfold construction_calls.
    replace (Ok (conn, metadata))
      with (match unpackb msg with
            | inl e => Raise e
            | inr md => Ok (conn, md)
            end) by (rewrite Hdec; reflexivity).
    apply handshake_received.
    + apply Haccept. apply connects_refused_calls.
    + exact Hrecv.
  - discriminate.
Qed.

Lemma and_then_returns {A B} env (t : itree (netE Float) (result A))
      (k : A -> itree (netE Float) (result B)) tr tr1 tr2 a b :
  returns env t tr tr1 (Ok a) ->
  returns env (k a) tr1 tr2 b ->
  returns env (and_then t k) tr tr2 b.
Proof. intros Ht Hk. unfold and_then. eapply returns_bind; [exact Ht|exact Hk]. Qed.

Lemma and_then_ok_inv {A B} env (t : itree (netE Float) (result A))
      (k : A -> itree (netE Float) (result B)) tr tr2 b :
  returns env (and_then t k) tr tr2 (Ok b) ->
  exists tr1 a, returns env t tr tr1 (Ok a) /\ returns env (k a) tr1 tr2 (Ok b).
Proof.
  unfold and_then. intros Hret.
  apply returns_bind_inv in Hret. destruct Hret as (tr1 & [e|a] & Ht & Hk).
  - apply returns_ret_inv in Hk. destruct Hk as [_ Hk]. discriminate.
  - exists tr1, a. split; assumption.
Qed.

(** A client that [__init__] returns is what a handshake of
    [_wait_for_server] gave, on the target built from [host] and [port]. *)
Lemma init_ok_inv env host port api_key tr tr' (self : Client Dict) :
  returns env (__init__ host port api_key) tr tr' (Ok self) ->
  exists uri conn metadata,
    uri = match port with
          | Some p => "ws://" ++ host ++ ":" ++ int_str p
          | None => "ws://" ++ host
          end /\
    self = mkClient uri pack api_key conn metadata /\
    returns env (_wait_for_server (mkConnecting uri pack api_key)) tr tr'
            (Ok (conn, metadata)).
Proof.
  rewrite init_unfold. intros Hret.
  apply and_then_ok_inv in Hret. destruct Hret as (tr1 & [conn md] & Hw & Hk).
  apply returns_ret_inv in Hk. destruct Hk as [-> Hself].
  injection Hself as ->.
  eexists _, conn, md. split; [reflexivity|]. split; [reflexivity|exact Hw].
Qed.

(** Refused [N] times, then a handshake that goes through: [__init__]
    returns the client of that handshake. *)
Lemma init_returns env host port api_key N conn msg metadata :
  (forall tr u c m h, connects tr < N ->
     env tr _ (Connect u c m h) = Raise ConnectionRefusedError) ->
  (forall tr u c m h, connects tr = N -> env tr _ (Connect u c m h) = Ok conn) ->
  env (refused_calls
         (mkConnecting
            match port with
            | Some p => "ws://" ++ host ++ ":" ++ int_str p
            | None => "ws://" ++ host
            end pack api_key) N
         ++ [CConnect
               match port with
               | Some p => "ws://" ++ host ++ ":" ++ int_str p
               | None => "ws://" ++ host
               end None None (headers api_key)])%list _
      (Recv conn None) = Ok msg ->
  unpackb msg = Ok metadata ->
  returns env (__init__ host port api_key) []
    (construction_calls
       (mkConnecting
          match port with
          | Some p => "ws://" ++ host ++ ":" ++ int_str p
          | None => "ws://" ++ host
          end pack api_key) N conn)
    (Ok (mkClient
           match port with
           | Some p => "ws://" ++ host ++ ":" ++ int_str p
           | None => "ws://" ++ host
           end pack api_key conn metadata)).
Proof.
  intros Hrefuse Haccept Hrecv Hdec. rewrite init_unfold.
  eapply and_then_returns.
  - eapply wait_for_server_handshakes; eassumption.
  - apply returns_ret.
Qed.

(** *** Sessions *)

Lemma invoke_total env (self : Client Dict) m tr :
  exists tr1,
    returns env (invoke self m) tr (tr ++ tr1)%list self /\
    closed tr1 = [] /\ connects tr1 = 0.
Proof.
  destruct m as [obs timeout| |]; unfold invoke, ITree.map.
  - destruct (infer_total env self obs timeout tr) as (tr1 & r & Hret & Hshape).
    exists tr1. split.
    + eapply returns_bind; [exact Hret|apply returns_ret].
    + destruct Hshape as [->| ->]; split; reflexivity.
  - exists []. rewrite app_nil_r. split; [|split; reflexivity].
    eapply returns_bind; [apply returns_ret|apply returns_ret].
  - exists []. rewrite app_nil_r. split; [|split; reflexivity].
    eapply returns_bind; [apply returns_ret|apply returns_ret].
Qed.

(** Whatever is called, in whatever order, and whatever the connector
    answers, the object stays what it was. *)
Lemma session_total env (self : Client Dict) ms tr :
  exists tr1,
    returns env (session self ms) tr (tr ++ tr1)%list self /\
    closed tr1 = [] /\ connects tr1 = 0.
Proof.
  revert tr. induction ms as [|m ms IH]; intros tr.
  - exists []. rewrite app_nil_r. split; [apply returns_ret|split; reflexivity].
  - destruct (invoke_total env self m tr) as (tr1 & Hm & Hc1 & Hn1).
    destruct (IH (tr ++ tr1)%list) as (tr2 & Hms & Hc2 & Hn2).
    exists (tr1 ++ tr2)%list. split; [|split].
    + cbn [session]. eapply returns_bind; [exact Hm|].
      rewrite app_assoc. exact Hms.
    + rewrite closed_app, Hc1, Hc2. reflexivity.
    + rewrite connects_app, Hn1, Hn2. reflexivity.
Qed.

Lemma session_app (self : Client Dict) (ms1 ms2 : list (method Dict Float)) :
  session self (ms1 ++ ms2)
  ≅ ITree.bind (session self ms1) (fun self' => session self' ms2).
Proof.
  revert self. induction ms1 as [|m ms1 IH]; intros self.
  - cbn. rewrite bind_ret_l. reflexivity.
  - cbn [session app]. rewrite bind_bind.
    apply eqit_bind; [reflexivity|]. intros self'. apply IH.
Qed.

Lemma session_resets (self : Client Dict) n :
  session self (repeat (@CallReset Dict Float) n) ≅ Ret self.
Proof.
  induction n as [|n IH].
  - reflexivity.
  - cbn [repeat session]. unfold invoke, reset, ITree.map.
    rewrite !bind_ret_l. cbn. exact IH.
Qed.

(** Every call [_wait_for_server] can ever make. *)
Lemma wait_for_server_always (self : Connecting Dict) :
  always (construction_call (Float:=Float) self) (_wait_for_server self).
Proof.
  unfold _wait_for_server. apply always_bind.
  - apply always_trigger. exact I.
  - intros _. apply always_iter. intros []. unfold attempt.
    apply always_bind.
    + unfold handshake, and_then. apply always_bind.
      * apply always_trigger. reflexivity.
      * intros [e|conn]; [apply always_ret|].
        apply always_bind; [apply always_trigger; reflexivity|].
        intros [e|msg]; [apply always_ret|].
        apply always_bind; [apply always_ret|].
        intros [e|md]; apply always_ret.
    + intros [[| | |]|cm]; try apply always_ret.
      apply always_bind; [apply always_trigger; exact I|]. intros _.
      apply always_bind; [apply always_trigger; reflexivity|]. intros _.
      apply always_ret.
Qed.

(** ** The claims about [infer] *)


(** C3, as the code has it.  When the reply received is a text message
    [s], [infer] fails with a [RuntimeError] whose message is the line
    "Error in inference server:" followed, on the next line, by exactly
    [s]. *)
Theorem infer_text_reply_raises env (self : Client Dict) obs timeout tr u s :
  env tr _ (Send (_ws self) (_packer self obs)) = inr u ->
  env (tr ++ [CSend (_ws self) (_packer self obs)])%list _
      (Recv (_ws self) timeout) = Ok (Text s) ->
  returns env (infer self obs timeout) tr
    (tr ++ [CSend (_ws self) (_packer self obs); CRecv (_ws self) timeout])%list
    (self, Raise (RuntimeError ("Error in inference server:" ++ nl ++ s))).
Proof.
  intros Hs Hr.
  pose proof (infer_after_send env self obs timeout tr u Hs) as Hret.
  rewrite Hr in Hret. exact Hret.
Qed.

(** C4.  When [infer] is called with a timeout [t] and no reply arrives
    within it, [infer] fails with a [RuntimeError] labelled as a timeout
    whose message carries [t] as Python prints it, and the call returns no
    payload. *)
Theorem infer_timeout_raises env (self : Client Dict) obs t tr u :
  env tr _ (Send (_ws self) (_packer self obs)) = inr u ->
  env (tr ++ [CSend (_ws self) (_packer self obs)])%list _
      (Recv (_ws self) (Some t)) = Raise TimeoutError ->
  returns env (infer self obs (Some t)) tr
    (tr ++ [CSend (_ws self) (_packer self obs); CRecv (_ws self) (Some t)])%list
    (self, Raise (RuntimeError
       ("Timeout waiting for inference response (timeout=" ++ float_str t ++ "s)"))) /\
  (forall tr' self' payload,
     ~ returns env (infer self obs (Some t)) tr tr' (self', Ok payload)).
Proof.
  intros Hs Hr.
  pose proof (infer_after_send env self obs (Some t) tr u Hs) as Hret.
  rewrite Hr in Hret. cbn [timeout_str] in Hret.
  split; [exact Hret|].
  intros tr' self' payload Hok.
  destruct (returns_det _ _ _ _ _ _ _ Hok Hret) as [_ Heq].
  discriminate.
Qed.


(** ** The claims about construction *)

(** C2, as the code has it.  For every [N], when the connector refuses the
    first [N] connect attempts, accepts attempt [N + 1], and the message
    then received on the new connection decodes, [_wait_for_server]
    succeeds after exactly [N + 1] connect attempts and exactly [N] delays
    of 5, one after each refusal.  [N] is any number, and the loop never
    gives up: against a connector that refuses every attempt,
    [_wait_for_server] does not come back. *)
Theorem wait_for_server_retries env (self : Connecting Dict) :
  (forall N conn msg metadata,
     (forall tr u c m h, connects tr < N ->
        env tr _ (Connect u c m h) = Raise ConnectionRefusedError) ->
     (forall tr u c m h, connects tr = N -> env tr _ (Connect u c m h) = Ok conn) ->
     env (refused_calls self N ++ [connect_call self])%list _ (Recv conn None) = Ok msg ->
     unpackb msg = Ok metadata ->
     returns env (_wait_for_server self) [] (construction_calls self N conn)
             (Ok (conn, metadata)) /\
     connects (construction_calls (Float:=Float) self N conn) = N + 1 /\
     sleeps (construction_calls (Float:=Float) self N conn) = repeat 5%Z N) /\
  ((forall tr u c m h, env tr _ (Connect u c m h) = Raise ConnectionRefusedError) ->
   forall tr tr' r, ~ returns env (_wait_for_server self) tr tr' r).
Proof.
  split.
  - intros N conn msg metadata Hrefuse Haccept Hrecv Hdec. split; [|split].
    + eapply wait_for_server_handshakes; eassumption.
    + apply connects_construction_calls.
    + apply sleeps_construction_calls.
  - intros Hrefuse tr tr' r Hret.
    apply wait_for_server_inv in Hret. destruct Hret as (tr0 & Hh & Hne).
    pose proof (handshake_connect_raises env self tr0 ConnectionRefusedError
                  (Hrefuse tr0 _ _ _ _)) as Hrefused.
    destruct (returns_det _ _ _ _ _ _ _ Hh Hrefused) as [_ ->].
    apply Hne. reflexivity.
Qed.


(** C7.  Once [__init__] has returned a client, its stored metadata is the
    decoding of the one message received on the client's connection right
    after the connect that opened it; [get_server_metadata] returns that
    mapping without asking anything of the connector and without failing,
    and goes on returning it after any calls made on the client. *)
Theorem server_metadata_is_first_message env host port api_key tr tr0
        (self : Client Dict) :
  returns env (__init__ host port api_key) tr tr0 (Ok self) ->
  (exists h msg,
     tr0 = (h ++ [CConnect (_uri self) None None (headers (_api_key self));
                  CRecv (_ws self) None])%list /\
     env h _ (Connect (_uri self) None None (headers (_api_key self))) = Ok (_ws self) /\
     env (h ++ [CConnect (_uri self) None None (headers (_api_key self))])%list _
         (Recv (_ws self) None) = Ok msg /\
     unpackb msg = Ok (_server_metadata self)) /\
  (forall h,
     returns env (get_server_metadata self) h h (self, Ok (_server_metadata self))) /\
  (forall ms h, exists h',
     returns env (ITree.bind (session self ms) get_server_metadata) h h'
             (self, Ok (_server_metadata self))).
Proof.
  intros Hret. split; [|split].
  - apply init_ok_inv in Hret.
    destruct Hret as (uri & conn & md & _ & -> & Hw).
    apply wait_for_server_inv in Hw. destruct Hw as (h & Hh & _).
    apply handshake_ok_inv in Hh. destruct Hh as (msg & -> & Hc & Hr & Hu).
    exists h, msg. cbn. repeat split; assumption.
  - intros h. apply returns_ret.
  - intros ms h.
    destruct (session_total env self ms h) as (tr1 & Hs & _).
    exists (h ++ tr1)%list.
    eapply returns_bind; [exact Hs|apply returns_ret].
Qed.

(** C8.  For every host and optional port, the target [__init__] builds is
    "ws://" followed by the host, then ":" and the port exactly when a port
    is given: every connect the construction ever makes goes to it, and it
    is the URI a constructed client holds. *)
Theorem init_connects_to_target env host port api_key :
  let target := match port with
                | None => "ws://" ++ host
                | Some p => "ws://" ++ host ++ ":" ++ int_str p
                end in
  always (fun c => match c with
                   | CConnect uri _ _ _ => uri = target
                   | _ => True
                   end)
         (__init__ (Dict:=Dict) (Float:=Float) host port api_key) /\
  (forall tr tr' r,
     returns env (__init__ (Dict:=Dict) host port api_key) tr tr' r ->
     exists ext,
       tr' = (tr ++ ext)%list /\
       Forall (fun c => match c with
                        | CConnect uri _ _ _ => uri = target
                        | _ => True
                        end) ext) /\
  (forall tr tr' (self : Client Dict),
     returns env (__init__ host port api_key) tr tr' (Ok self) ->
     _uri self = target).
Proof.
  intros target.
  assert (Halways :
    always (fun c : call Float => match c with
                                  | CConnect uri _ _ _ => uri = target
                                  | _ => True
                                  end)
           (__init__ (Dict:=Dict) host port api_key)).
  { rewrite init_unfold. unfold and_then.
    apply always_bind; [|intros [e|r]; apply always_ret].
    eapply always_weaken; [|apply wait_for_server_always].
    intros [u cm ms h| | | | |]; cbn; try (intros; exact I).
    intros Hc. injection Hc as -> _ _ _. subst target.
    destruct port; reflexivity. }
  split; [exact Halways|]. split.
  - intros tr tr' r Hret. eapply always_returns; eassumption.
  - intros tr tr' self Hret. apply init_ok_inv in Hret.
    destruct Hret as (uri & conn & md & -> & -> & _).
    subst target. destruct port; reflexivity.
Qed.

(** C10.  The connect carries the header [Authorization: Api-Key <key>]
    exactly when the configured API key is truthy, and no header otherwise:
    every connect [_wait_for_server] ever makes carries [headers] of the
    key.  With the empty string for a key the construction asks of the
    connector what it asks with no key at all, and gives the same client
    but for the key it stores. *)
Theorem authorization_header_iff_truthy :
  (forall api_key,
     match headers api_key with
     | Some h =>
         truthy api_key = true /\
         exists key, api_key = Some key /\ h = [("Authorization", "Api-Key " ++ key)]
     | None => truthy api_key = false
     end) /\
  (forall self : Connecting Dict,
     always (Float:=Float)
            (fun c => match c with
                      | CConnect _ _ _ h => h = headers (c_api_key self)
                      | _ => True
                      end)
            (_wait_for_server self)) /\
  (forall env (self : Connecting Dict) tr tr' r,
     returns env (_wait_for_server self) tr tr' r ->
     exists ext,
       tr' = (tr ++ ext)%list /\
       Forall (fun c => match c with
                        | CConnect _ _ _ h => h = headers (c_api_key self)
                        | _ => True
                        end) ext) /\
  headers (Some "") = headers None /\
  (forall uri (packer : Dict -> bytes),
     _wait_for_server (Float:=Float) (mkConnecting uri packer (Some ""))
     = _wait_for_server (mkConnecting uri packer None)) /\
  (forall host port,
     __init__ (Dict:=Dict) (Float:=Float) host port (Some "")
     ≅ ITree.map (fun r => match r with
                           | inl e => Raise e
                           | inr self => Ok (with_api_key (Some "") self)
                           end)
                 (__init__ host port None)).
Proof.
  assert (Halways : forall self : Connecting Dict,
    always (Float:=Float)
           (fun c => match c with
                     | CConnect _ _ _ h => h = headers (c_api_key self)
                     | _ => True
                     end)
           (_wait_for_server self)).
  { intros self. eapply always_weaken; [|apply wait_for_server_always].
    intros [u cm ms h| | | | |]; cbn; try (intros; exact I).
    intros Hc. injection Hc as _ _ _ ->. reflexivity. }
  split; [|split; [|split; [|split; [|split]]]].
  - intros [[|c k]|]; cbn.
    + reflexivity.
    + split; [reflexivity|]. exists (String c k). split; reflexivity.
    + reflexivity.
  - exact Halways.
  - intros env self tr tr' r Hret. eapply always_returns; [apply Halways|exact Hret].
  - reflexivity.
  - intros uri packer. reflexivity.
  - intros host port. rewrite !init_unfold. unfold and_then, ITree.map.
    rewrite bind_bind.
    apply eqit_bind; [reflexivity|].
    intros [e|r]; rewrite bind_ret_l; reflexivity.
Qed.

(** ** The claim about [reset] *)

(** C9.  [reset] does nothing.  Called any number of times it asks nothing
    of the connector and leaves the client as it was; an [infer] that
    follows is the [infer] there would have been without it; and the calls
    can be dropped from anywhere in a session of calls. *)
Theorem reset_is_a_noop env (self : Client Dict) n tr :
  returns env (session self (repeat CallReset n)) tr tr self /\
  (forall obs timeout,
     ITree.bind (session self (repeat CallReset n))
                (fun self' => infer self' obs timeout)
     ≅ infer self obs timeout) /\
  (forall ms1 ms2,
     session self (ms1 ++ repeat CallReset n ++ ms2) ≅ session self (ms1 ++ ms2)).
Proof.
  split; [|split].
  - unfold returns. rewrite session_resets, interp_state_ret. reflexivity.
  - intros obs timeout. rewrite session_resets, bind_ret_l. reflexivity.
  - intros ms1 ms2. rewrite !(session_app self ms1).
    apply eqit_bind; [reflexivity|]. intros self'.
    rewrite session_app, session_resets, bind_ret_l. reflexivity.
Qed.

(** ** Further facts about [infer] *)

Lemma infer_outcome env (self : Client Dict) obs timeout tr :
  (exists e,
     env tr _ (Send (_ws self) (_packer self obs)) = Raise e /\
     returns env (infer self obs timeout) tr
             (tr ++ [CSend (_ws self) (_packer self obs)])%list (self, Raise e)) \/
  (exists u,
     env tr _ (Send (_ws self) (_packer self obs)) = inr u /\
     returns env (infer self obs timeout) tr
       (tr ++ [CSend (_ws self) (_packer self obs); CRecv (_ws self) timeout])%list
       (match env (tr ++ [CSend (_ws self) (_packer self obs)])%list _
                (Recv (_ws self) timeout) with
        | inl TimeoutError =>
            (self, Raise (RuntimeError
               ("Timeout waiting for inference response (timeout="
                  ++ timeout_str timeout ++ "s)")))
        | inl e => (self, Raise e)
        | inr (Text response) =>
            (self, Raise (RuntimeError ("Error in inference server:" ++ nl ++ response)))
        | inr response => (self, unpackb response)
        end)).
Proof.
  destruct (env tr _ (Send (_ws self) (_packer self obs))) as [e|u] eqn:Hs.
  - left. exists e. split; [reflexivity|]. apply infer_send_raises. exact Hs.
  - right. exists u. split; [reflexivity|].
    apply (infer_after_send env self obs timeout tr u). exact Hs.
Qed.

(** X1.  A failure of the send is the failure of [infer], whatever its
    class, a [TimeoutError] included: the send is outside the [try].  No
    receive is made after it, on no run. *)
Theorem infer_send_failure_propagates env (self : Client Dict) obs timeout tr e :
  env tr _ (Send (_ws self) (_packer self obs)) = Raise e ->
  returns env (infer self obs timeout) tr
          (tr ++ [CSend (_ws self) (_packer self obs)])%list (self, Raise e) /\
  (forall tr' r,
     returns env (infer self obs timeout) tr tr' r ->
     recvs tr' = recvs tr /\ r = (self, Raise e)).
Proof.
  intros Hs.
  pose proof (infer_send_raises env self obs timeout tr e Hs) as Hret.
  split; [exact Hret|].
  intros tr' r Hr.
  destruct (returns_det _ _ _ _ _ _ _ Hr Hret) as [-> ->].
  split; [|reflexivity].
  unfold recvs. rewrite filter_app, length_app. cbn. lia.
Qed.

(** X2.  A failure of the receive other than a [TimeoutError] is the failure
    of [infer], unchanged: only the timeout is caught. *)
Theorem infer_recv_failure_propagates env (self : Client Dict) obs timeout tr u e :
  env tr _ (Send (_ws self) (_packer self obs)) = inr u ->
  env (tr ++ [CSend (_ws self) (_packer self obs)])%list _
      (Recv (_ws self) timeout) = Raise e ->
  e <> TimeoutError ->
  returns env (infer self obs timeout) tr
    (tr ++ [CSend (_ws self) (_packer self obs); CRecv (_ws self) timeout])%list
    (self, Raise e).
Proof.
  intros Hs Hr Hne.
  pose proof (infer_after_send env self obs timeout tr u Hs) as Hret.
  rewrite Hr in Hret.
  destruct e; try exact Hret.
  exfalso. apply Hne. reflexivity.
Qed.

(** X3.  A payload that [infer] returns is a decoded binary reply: the send
    returned, the one receive that followed gave a binary message, and the
    payload is what [unpackb] made of it. *)
Theorem infer_payload_is_decoded_reply env (self : Client Dict) obs timeout
        tr tr' self' payload :
  returns env (infer self obs timeout) tr tr' (self', Ok payload) ->
  exists u b,
    env tr _ (Send (_ws self) (_packer self obs)) = inr u /\
    env (tr ++ [CSend (_ws self) (_packer self obs)])%list _
        (Recv (_ws self) timeout) = Ok (Binary b) /\
    unpackb (Binary b) = Ok payload /\
    tr' = (tr ++ [CSend (_ws self) (_packer self obs); CRecv (_ws self) timeout])%list /\
    self' = self.
Proof.
  intros Hok.
  destruct (infer_outcome env self obs timeout tr) as [(e & Hs & Hret)|(u & Hs & Hret)].
  - destruct (returns_det _ _ _ _ _ _ _ Hok Hret) as [_ Heq]. discriminate.
  - destruct (returns_det _ _ _ _ _ _ _ Hok Hret) as [-> Heq].
    destruct (env (tr ++ [CSend (_ws self) (_packer self obs)])%list _
                  (Recv (_ws self) timeout)) as [[| | |]|[s|b]] eqn:Hr;
      try discriminate.
    injection Heq as -> Hu.
    exists u, b. split; [exact Hs|]. split; [reflexivity|].
    split; [symmetry; exact Hu|]. split; reflexivity.
Qed.

(** X9.  After a timeout the client is used as before: the next [infer]
    sends on the same connection and returns the decoding of the next binary
    message that arrives there, whichever request that message answers. *)
Theorem infer_after_timeout_takes_next_message env (self : Client Dict)
        obs1 t obs2 timeout tr u1 u2 b :
  env tr _ (Send (_ws self) (_packer self obs1)) = inr u1 ->
  env (tr ++ [CSend (_ws self) (_packer self obs1)])%list _
      (Recv (_ws self) (Some t)) = Raise TimeoutError ->
  env (tr ++ [CSend (_ws self) (_packer self obs1); CRecv (_ws self) (Some t)])%list _
      (Send (_ws self) (_packer self obs2)) = inr u2 ->
  env ((tr ++ [CSend (_ws self) (_packer self obs1); CRecv (_ws self) (Some t)])
         ++ [CSend (_ws self) (_packer self obs2)])%list _
      (Recv (_ws self) timeout) = Ok (Binary b) ->
  returns env
    (ITree.bind (infer self obs1 (Some t)) (fun r1 => infer (fst r1) obs2 timeout))
    tr
    ((tr ++ [CSend (_ws self) (_packer self obs1); CRecv (_ws self) (Some t)])
       ++ [CSend (_ws self) (_packer self obs2); CRecv (_ws self) timeout])%list
    (self, unpackb (Binary b)).
Proof.
  intros Hs1 Hr1 Hs2 Hr2.
  pose proof (infer_after_send env self obs1 (Some t) tr u1 Hs1) as H1.
  rewrite Hr1 in H1.
  eapply returns_bind; [exact H1|]. cbn [fst].
  pose proof (infer_after_send env self obs2 timeout _ u2 Hs2) as H2.
  rewrite Hr2 in H2. exact H2.
Qed.

(** ** Further facts about construction *)






(** X4.  The [except] clause covers the whole handshake: when the connect
    succeeds and the refusal is raised by the receive of the metadata, or by
    its decoding, the turn is retried all the same, after the log line and
    the delay of 5; the connection that was opened is not closed. *)
Theorem refusal_after_connect_is_retried env (self : Connecting Dict) tr conn :
  connect_answer env self tr = Ok conn ->
  env (tr ++ [connect_call self])%list _ (Recv conn None)
    = Raise ConnectionRefusedError \/
  (exists msg,
     env (tr ++ [connect_call self])%list _ (Recv conn None) = Ok msg /\
     unpackb msg = Raise ConnectionRefusedError) ->
  returns env (attempt self tt) tr
    (tr ++ [connect_call self; CRecv conn None;
            CLogInfo "Still waiting for server..."; CSleep 5])%list
    (inl tt) /\
  closed [connect_call self; CRecv conn None;
          CLogInfo (Float:=Float) "Still waiting for server..."; CSleep 5] = [].
Proof.
  intros Hc Hrefused. split; [|reflexivity].
  replace (tr ++ [connect_call self; CRecv conn None;
                  CLogInfo "Still waiting for server..."; CSleep 5])%list
    with ((tr ++ [connect_call self; CRecv conn None])
            ++ [CLogInfo "Still waiting for server..."; CSleep 5])%list
    by (rewrite <- app_assoc; reflexivity).
  apply attempt_retries.
  destruct Hrefused as [Hr|(msg & Hr & Hu)].
  - apply handshake_recv_raises; assumption.
  - pose proof (handshake_received env self tr conn msg Hc Hr) as Hh.
    rewrite Hu in Hh. exact Hh.
Qed.


(** X6.  Every call [__init__] can ever make, on every run and also on one
    that never ends: a connect asks for no compression and no size limit, a
    receive has no timeout, a delay is 5; nothing is ever sent and no
    connection is ever closed. *)
Theorem init_asks_only_handshake_calls host port api_key :
  always (Float:=Float)
         (fun c => match c with
                   | CConnect _ compression max_size _ =>
                       compression = None /\ max_size = None
                   | CRecv _ timeout => timeout = None
                   | CSleep secs => secs = 5%Z
                   | CLogInfo _ => True
                   | CSend _ _ => False
                   | CClose _ => False
                   end)
         (__init__ (Dict:=Dict) host port api_key).
Proof.
  rewrite init_unfold. unfold and_then.
  apply always_bind; [|intros [e|r]; apply always_ret].
  eapply always_weaken; [|apply wait_for_server_always].
  intros [u cm ms h| | | | |]; cbn; try (intros H; exact H).
  intros Hc. injection Hc as _ -> -> _. split; reflexivity.
Qed.

Lemma and_then_raise_inv {A B} env (t : itree (netE Float) (result A))
      (k : A -> itree (netE Float) (result B)) tr tr2 e :
  returns env (and_then t k) tr tr2 (Raise e) ->
  returns env t tr tr2 (Raise e) \/
  exists tr1 a, returns env t tr tr1 (Ok a) /\ returns env (k a) tr1 tr2 (Raise e).
Proof.
  unfold and_then. intros Hret.
  apply returns_bind_inv in Hret. destruct Hret as (tr1 & [e'|a] & Ht & Hk).
  - apply returns_ret_inv in Hk. destruct Hk as [-> Hk].
    injection Hk as ->. left. exact Ht.
  - right. exists tr1, a. split; assumption.
Qed.

(** X7.  [__init__] fails exactly when [_wait_for_server] fails, with the
    same exception and with no call after it; the exception is that of a
    handshake and is never a [ConnectionRefusedError]. *)
Theorem init_fails_as_the_handshake env host port api_key tr tr' e :
  let self := mkConnecting
                match port with
                | Some p => "ws://" ++ host ++ ":" ++ int_str p
                | None => "ws://" ++ host
                end pack api_key in
  (returns env (__init__ host port api_key) tr tr' (Raise e) ->
   returns env (_wait_for_server self) tr tr' (Raise e) /\
   e <> ConnectionRefusedError /\
   exists tr0, returns env (handshake self) tr0 tr' (Raise e)) /\
  (returns env (_wait_for_server self) tr tr' (Raise e) ->
   returns env (__init__ host port api_key) tr tr' (Raise e)).
Proof.
  intros self. rewrite init_unfold. fold self. split.
  - intros Hret. apply and_then_raise_inv in Hret.
    destruct Hret as [Hw|(tr1 & a & _ & Hk)].
    + split; [exact Hw|].
      apply wait_for_server_inv in Hw. destruct Hw as (tr0 & Hh & Hne).
      split.
      * intros ->. apply Hne. reflexivity.
      * exists tr0. exact Hh.
    + apply returns_ret_inv in Hk. destruct Hk as [_ Hk]. discriminate.
  - intros Hw. unfold and_then.
    eapply returns_bind; [exact Hw|]. apply returns_ret.
Qed.

(** ** Further facts about sessions *)


End Facts.

(** ** The claims on the examples *)

Lemma server_after_refuses n accept greeting reply :
  forall tr u c m h, connects tr < n ->
    server_after n accept greeting reply tr _ (Connect u c m h)
    = Raise ConnectionRefusedError.
Proof.
  intros tr u c m h Hlt. unfold server_after.
  apply Nat.ltb_lt in Hlt. rewrite Hlt. reflexivity.
Qed.

Lemma server_after_accepts n accept greeting reply :
  forall tr u c m h, connects tr = n ->
    server_after n accept greeting reply tr _ (Connect u c m h) = accept.
Proof.
  intros tr u c m h Heq. unfold server_after.
  rewrite (proj2 (Nat.ltb_ge (connects tr) n)); [reflexivity|lia].
Qed.


(** C2 on a server that is up at the third attempt: two refusals, two
    delays of 5, three connects. *)
Lemma wait_for_server_retries_witness :
  unpackb (Binary (pack "{action_dim: 7}")) = Ok "{action_dim: 7}" /\
  returns late_server (_wait_for_server a_connecting) []
          (construction_calls a_connecting 2 1) (Ok (1, "{action_dim: 7}")) /\
  connects (construction_calls (Float:=string) a_connecting 2 1) = 3 /\
  sleeps (construction_calls (Float:=string) a_connecting 2 1) = [5; 5]%Z.
Proof.
  split; [reflexivity|].
  apply (proj1 (wait_for_server_retries late_server a_connecting) 2 1
           (Binary (pack "{action_dim: 7}")) "{action_dim: 7}").
  - apply server_after_refuses.
  - apply server_after_accepts.
  - reflexivity.
  - reflexivity.
Defined.

(** C2 as it is stated fails: here the first connect attempt succeeds, no
    attempt is refused, and the construction fails all the same, for the
    server greets with a text frame, which [unpackb] does not take. *)
Lemma wait_for_server_fails_on_undecodable_metadata :
  (forall tr u c m h, connects tr < 0 ->
     text_greeter tr _ (Connect u c m h) = Raise ConnectionRefusedError) /\
  (forall tr u c m h, connects tr = 0 ->
     text_greeter tr _ (Connect u c m h) = Ok 1) /\
  returns text_greeter (_wait_for_server a_connecting) []
          [CLogInfo "Waiting for server at ws://localhost:8000...";
           CConnect "ws://localhost:8000" None None None; CRecv 1 None]
          (Raise (OtherError "TypeError")) /\
  ~ (exists tr' cm,
       returns text_greeter (_wait_for_server a_connecting) [] tr' (Ok cm)).
Proof.
  assert (Hfails :
    returns text_greeter (_wait_for_server a_connecting) []
            [CLogInfo "Waiting for server at ws://localhost:8000...";
             CConnect "ws://localhost:8000" None None None; CRecv 1 None]
            (Raise (OtherError "TypeError"))).
  { apply (wait_for_server_after_refusals text_greeter a_connecting 0).
    - intros tr Hlt. inversion Hlt.
    - exact (handshake_received text_greeter a_connecting
               [CLogInfo "Waiting for server at ws://localhost:8000..."] 1 (Text "hello")
               eq_refl eq_refl).
    - discriminate. }
  split; [apply server_after_refuses|].
  split; [apply server_after_accepts|].
  split; [exact Hfails|].
  intros (tr' & cm & Hok).
  destruct (returns_det _ _ _ _ _ _ _ Hok Hfails) as [_ Heq].
  discriminate.
Qed.

(** C3 on the error of the specification: the text "division by zero"
    comes back under the heading of [infer]. *)
Lemma infer_text_reply_raises_witness :
  answering (Ok (Text "division by zero")) [] _
            (Send 1 (pack "{obs: [1, 2, 3]}")) = inr tt /\
  answering (Ok (Text "division by zero"))
            [CSend 1 (pack "{obs: [1, 2, 3]}")] _ (Recv 1 None)
  = Ok (Text "division by zero") /\
  returns (answering (Ok (Text "division by zero")))
          (infer a_client "{obs: [1, 2, 3]}" None) []
          [CSend 1 (pack "{obs: [1, 2, 3]}"); CRecv 1 None]
          (a_client,
           Raise (RuntimeError ("Error in inference server:" ++ nl ++ "division by zero"))).
Proof.
  split; [reflexivity|]. split; [reflexivity|].
  exact (infer_text_reply_raises
           (answering (Ok (Text "division by zero")))
           a_client "{obs: [1, 2, 3]}" None [] tt "division by zero"
           eq_refl eq_refl).
Defined.

(** C3 as it is stated fails: the message of the error is not the text
    received, it is that text under a heading. *)
Lemma infer_text_reply_is_not_verbatim :
  answering (Ok (Text "division by zero")) [] _
            (Send 1 (pack "{obs: [1, 2, 3]}")) = inr tt /\
  answering (Ok (Text "division by zero"))
            [CSend 1 (pack "{obs: [1, 2, 3]}")] _ (Recv 1 None)
  = Ok (Text "division by zero") /\
  ~ (exists tr',
       returns (answering (Ok (Text "division by zero")))
               (infer a_client "{obs: [1, 2, 3]}" None) [] tr'
               (a_client, Raise (RuntimeError "division by zero"))).
Proof.
  split; [reflexivity|]. split; [reflexivity|].
  intros (tr' & Hverbatim).
  pose proof (infer_after_send (answering (Ok (Text "division by zero")))
                a_client "{obs: [1, 2, 3]}" None [] tt eq_refl) as Hret.
  destruct (returns_det _ _ _ _ _ _ _ Hverbatim Hret) as [_ Heq].
  discriminate.
Qed.

(** C4 on the timeout of the specification: 0.01 is in the message. *)
Lemma infer_timeout_raises_witness :
  answering (Raise TimeoutError) [] _ (Send 1 (pack "{obs: [1, 2, 3]}")) = inr tt /\
  answering (Raise TimeoutError)
            [CSend 1 (pack "{obs: [1, 2, 3]}")] _ (Recv 1 (Some "0.01"))
  = Raise TimeoutError /\
  returns (answering (Raise TimeoutError))
          (infer a_client "{obs: [1, 2, 3]}" (Some "0.01")) []
          [CSend 1 (pack "{obs: [1, 2, 3]}"); CRecv 1 (Some "0.01")]
          (a_client,
           Raise (RuntimeError
                    "Timeout waiting for inference response (timeout=0.01s)")).
Proof.
  split; [reflexivity|]. split; [reflexivity|].
  exact (proj1 (infer_timeout_raises
                  (answering (Raise TimeoutError))
                  a_client "{obs: [1, 2, 3]}" "0.01" [] tt eq_refl eq_refl)).
Defined.


(** C7 on the metadata of the specification: the late server greets with
    "{action_dim: 7}", and that is what the client holds. *)
Lemma server_metadata_is_first_message_witness :
  returns late_server (__init__ "localhost" (Some 8000%Z) None) []
          (construction_calls a_connecting 2 1) (Ok a_client) /\
  forall ms h, exists h',
    returns late_server (ITree.bind (session a_client ms) get_server_metadata) h h'
            (a_client, Ok "{action_dim: 7}").
Proof.
  assert (Hinit :
    returns late_server (__init__ "localhost" (Some 8000%Z) None) []
            (construction_calls a_connecting 2 1) (Ok a_client)).
  { apply (init_returns late_server "localhost" (Some 8000%Z) None 2 1
             (Binary (pack "{action_dim: 7}")) "{action_dim: 7}").
    - apply server_after_refuses.
    - apply server_after_accepts.
    - reflexivity.
    - reflexivity. }
  split; [exact Hinit|].
  exact (proj2 (proj2 (server_metadata_is_first_message
                         late_server "localhost" (Some 8000%Z) None [] _ a_client Hinit))).
Defined.

(** C8 on the client of the examples: host "localhost", port 8000. *)
Lemma init_connects_to_target_witness :
  returns late_server (__init__ "localhost" (Some 8000%Z) None) []
          (construction_calls a_connecting 2 1) (Ok a_client) /\
  _uri a_client = "ws://localhost:8000".
Proof.
  assert (Hinit :
    returns late_server (__init__ "localhost" (Some 8000%Z) None) []
            (construction_calls a_connecting 2 1) (Ok a_client)).
  { apply (init_returns late_server "localhost" (Some 8000%Z) None 2 1
             (Binary (pack "{action_dim: 7}")) "{action_dim: 7}").
    - apply server_after_refuses.
    - apply server_after_accepts.
    - reflexivity.
    - reflexivity. }
  split; [exact Hinit|].
  exact (proj2 (proj2 (init_connects_to_target late_server "localhost" (Some 8000%Z) None))
               [] _ a_client Hinit).
Defined.

(** C10 on the late server and a client with the key "secret": each of
    its three connects carries the header. *)
Lemma authorization_header_iff_truthy_witness :
  returns late_server (_wait_for_server a_keyed_connecting) []
          (construction_calls a_keyed_connecting 2 1) (Ok (1, "{action_dim: 7}")) /\
  exists ext,
    construction_calls a_keyed_connecting 2 1 = ([] ++ ext)%list /\
    Forall (fun c : call string =>
              match c with
              | CConnect _ _ _ h => h = Some [("Authorization", "Api-Key secret")]
              | _ => True
              end) ext.
Proof.
  assert (Hwait :
    returns late_server (_wait_for_server a_keyed_connecting) []
            (construction_calls a_keyed_connecting 2 1) (Ok (1, "{action_dim: 7}"))).
  { apply (wait_for_server_handshakes late_server a_keyed_connecting 2 1
             (Binary (pack "{action_dim: 7}")) "{action_dim: 7}").
    - apply server_after_refuses.
    - apply server_after_accepts.
    - reflexivity.
    - reflexivity. }
  split; [exact Hwait|].
  exact (proj1 (proj2 (proj2 (authorization_header_iff_truthy (Dict:=string) (Float:=string))))
               late_server a_keyed_connecting [] _ _ Hwait).
Defined.

(** ** The further facts on the examples *)

(** X1 on a closed connection: the failure of the send is that of [infer]. *)
Lemma infer_send_failure_propagates_witness :
  closed_connection [] _ (Send 1 (pack "{obs: [1, 2, 3]}"))
  = Raise (OtherError "ConnectionClosedError") /\
  returns closed_connection (infer a_client "{obs: [1, 2, 3]}" None) []
          [CSend 1 (pack "{obs: [1, 2, 3]}")]
          (a_client, Raise (OtherError "ConnectionClosedError")).
Proof.
  split; [reflexivity|].
  exact (proj1 (infer_send_failure_propagates closed_connection a_client
                  "{obs: [1, 2, 3]}" None [] (OtherError "ConnectionClosedError")
                  eq_refl)).
Defined.

(** X2 on a connection that closes before the reply. *)
Lemma infer_recv_failure_propagates_witness :
  answering (Raise (OtherError "ConnectionClosedError")) [] _
            (Send 1 (pack "{obs: [1, 2, 3]}")) = inr tt /\
  answering (Raise (OtherError "ConnectionClosedError"))
            [CSend 1 (pack "{obs: [1, 2, 3]}")] _ (Recv 1 None)
  = Raise (OtherError "ConnectionClosedError") /\
  OtherError "ConnectionClosedError" <> TimeoutError /\
  returns (answering (Raise (OtherError "ConnectionClosedError")))
          (infer a_client "{obs: [1, 2, 3]}" None) []
          [CSend 1 (pack "{obs: [1, 2, 3]}"); CRecv 1 None]
          (a_client, Raise (OtherError "ConnectionClosedError")).
Proof.
  split; [reflexivity|]. split; [reflexivity|]. split; [discriminate|].
  apply (infer_recv_failure_propagates
           (answering (Raise (OtherError "ConnectionClosedError")))
           a_client "{obs: [1, 2, 3]}" None [] tt (OtherError "ConnectionClosedError")).
  - reflexivity.
  - reflexivity.
  - discriminate.
Defined.

(** X3 on the round trip of the examples. *)
Lemma infer_payload_is_decoded_reply_witness :
  returns (answering (Ok (Binary (pack "{action: [0.1, 0.2]}"))))
          (infer a_client "{obs: [1, 2, 3]}" None) []
          [CSend 1 (pack "{obs: [1, 2, 3]}"); CRecv 1 None]
          (a_client, Ok "{action: [0.1, 0.2]}") /\
  exists b,
    answering (Ok (Binary (pack "{action: [0.1, 0.2]}")))
              [CSend 1 (pack "{obs: [1, 2, 3]}")] _ (Recv 1 None)
    = Ok (Binary b) /\
    unpackb (Binary b) = Ok "{action: [0.1, 0.2]}".
Proof.
  assert (Hret :
    returns (answering (Ok (Binary (pack "{action: [0.1, 0.2]}"))))
            (infer a_client "{obs: [1, 2, 3]}" None) []
            [CSend 1 (pack "{obs: [1, 2, 3]}"); CRecv 1 None]
            (a_client, Ok "{action: [0.1, 0.2]}")).
  { exact (infer_after_send (answering (Ok (Binary (pack "{action: [0.1, 0.2]}"))))
             a_client "{obs: [1, 2, 3]}" None [] tt eq_refl). }
  split; [exact Hret|].
  destruct (infer_payload_is_decoded_reply
              (answering (Ok (Binary (pack "{action: [0.1, 0.2]}"))))
              a_client "{obs: [1, 2, 3]}" None [] _ a_client "{action: [0.1, 0.2]}" Hret)
    as (u & b & _ & Hr & Hu & _).
  exists b. split; [exact Hr|exact Hu].
Defined.

(** X4 on the server behind a proxy: the first connection is accepted, the
    receive on it reports the refusal, and the turn is retried. *)
Lemma refusal_after_connect_is_retried_witness :
  connect_answer flaky_greeter a_connecting [] = Ok 1 /\
  flaky_greeter [connect_call a_connecting] _ (Recv 1 None)
  = Raise ConnectionRefusedError /\
  returns flaky_greeter (attempt a_connecting tt) []
          [connect_call a_connecting; CRecv 1 None;
           CLogInfo "Still waiting for server..."; CSleep 5]
          (inl tt).
Proof.
  split; [reflexivity|]. split; [reflexivity|].
  exact (proj1 (refusal_after_connect_is_retried flaky_greeter a_connecting [] 1
                  eq_refl (or_introl eq_refl))).
Defined.


(** X7 on the connector that rejects the target: the construction fails
    with that rejection, after the log line and the one connect. *)
Lemma init_fails_as_the_handshake_witness :
  returns rejecting (_wait_for_server a_connecting) []
          [CLogInfo "Waiting for server at ws://localhost:8000...";
           connect_call a_connecting]
          (Raise (OtherError "InvalidURI")) /\
  returns rejecting (__init__ "localhost" (Some 8000%Z) None) []
          [CLogInfo "Waiting for server at ws://localhost:8000...";
           connect_call a_connecting]
          (Raise (OtherError "InvalidURI")).
Proof.
  assert (Hwait :
    returns rejecting (_wait_for_server a_connecting) []
            [CLogInfo "Waiting for server at ws://localhost:8000...";
             connect_call a_connecting]
            (Raise (OtherError "InvalidURI"))).
  { apply (wait_for_server_after_refusals rejecting a_connecting 0).
    - intros tr Hlt. inversion Hlt.
    - exact (handshake_connect_raises rejecting a_connecting
               [CLogInfo "Waiting for server at ws://localhost:8000..."]
               (OtherError "InvalidURI") eq_refl).
    - discriminate. }
  split; [exact Hwait|].
  exact (proj2 (init_fails_as_the_handshake rejecting "localhost" (Some 8000%Z) None
                  [] _ (OtherError "InvalidURI")) Hwait).
Defined.

(** X9 on the slow server: the request "first" times out, and the call
    for "second" returns the answer to "first". *)
Lemma infer_after_timeout_takes_next_message_witness :
  slow_server [CSend 1 (pack "first")] _ (Recv 1 (Some "0.01")) = Raise TimeoutError /\
  slow_server [CSend 1 (pack "first"); CRecv 1 (Some "0.01"); CSend 1 (pack "second")] _
              (Recv 1 None)
  = Ok (Binary (pack "{answer to: first}")) /\
  returns slow_server
          (ITree.bind (infer a_client "first" (Some "0.01"))
                      (fun r1 => infer (fst r1) "second" None))
          []
          [CSend 1 (pack "first"); CRecv 1 (Some "0.01");
           CSend 1 (pack "second"); CRecv 1 None]
          (a_client, Ok "{answer to: first}").
Proof.
  split; [reflexivity|]. split; [reflexivity|].
  exact (infer_after_timeout_takes_next_message slow_server a_client
           "first" "0.01" "second" None [] tt tt (pack "{answer to: first}")
           eq_refl eq_refl eq_refl eq_refl).
Defined.
